(** * The client-side evaluation state machine of @happykit/flags

    A shallow embedding of [client.ts] (the [useFlags] hook): the reducer that
    tracks pending and settled evaluations, the effect runner that performs the
    fetch, the mount effect with its readiness gate, and the derived flag bag.

    JavaScript values are embedded as follows.
    - [T | null | undefined] is [option T]; [None] is the absent value.
    - A string is truthy iff it is not empty; objects are always truthy.
    - Objects used as dictionaries (flags, traits, the cookie jar) are [gmap]s
      over [string].
    - The module-level [cache] and [document.cookie] are mutable, so the
      reducer is a state-passing function over a [World]. *)

From stdpp Require Import gmap strings list fin_maps.

(** ** ./types *)

(** Modelled from the spec: the declarations of ./types, which the client
    imports. Flag values are booleans, strings or numbers; numbers are kept as
    integers, nothing in the client computes with them. *)
Inductive FlagValue :=
  | FBool (b : bool)
  | FStr (s : string)
  | FNum (n : Z).

(** Modelled from the spec: a value of a user attribute or a trait, taken from
    the closed, serializable scalars. *)
Inductive Scalar :=
  | SNull
  | SBool (b : bool)
  | SNum (n : Z)
  | SStr (s : string).

Abbreviation Flags := (gmap string FlagValue).
Abbreviation Traits := (gmap string Scalar).

(** Modelled from the spec: a user is an object with a [key] and further
    attributes, [{ key: string, ... }]. *)
Record FlagUser := {
  user_key : string;
  user_attributes : gmap string Scalar;
}.

(** Modelled from the spec: the body of the evaluation request,
    [{ visitorKey, user?, traits?, static }]. *)
Record RequestBody := {
  visitorKey : string;
  user : option FlagUser;
  traits : option Traits;
  static : bool;
}.

(** Modelled from the spec: [{ endpoint, envKey, requestBody }], the cache key
    and the unit of the staleness test. *)
Record Input := {
  endpoint : string;
  envKey : string;
  requestBody : RequestBody;
}.

(** Modelled from the spec: the body of the evaluation response,
    [{ flags, visitor?: { key } }]. *)
Record Visitor := { key : string }.

Record EvaluationResponseBody := {
  flags : Flags;
  visitor : option Visitor;
}.

Record Outcome := { responseBody : EvaluationResponseBody }.

(** Modelled from the spec: the kinds of failure of a resolution. *)
Inductive ResolvingError :=
  | response_not_ok
  | invalid_response_body
  | network_error.

(** Modelled from the spec: a pre-seeded state, as the reducer's initializer
    reads it: an input with either an outcome or the error it failed with. *)
Inductive InitialFlagState :=
  | InitialOutcome (input : Input) (outcome : Outcome)
  | InitialError (input : Input) (error : ResolvingError).

#[global] Instance FlagValue_eq_dec : EqDecision FlagValue.
Proof. solve_decision. Defined.
#[global] Instance Scalar_eq_dec : EqDecision Scalar.
Proof. solve_decision. Defined.
#[global] Instance FlagUser_eq_dec : EqDecision FlagUser.
Proof. solve_decision. Defined.
#[global] Instance RequestBody_eq_dec : EqDecision RequestBody.
Proof. solve_decision. Defined.
#[global] Instance Input_eq_dec : EqDecision Input.
Proof. solve_decision. Defined.
#[global] Instance Visitor_eq_dec : EqDecision Visitor.
Proof. solve_decision. Defined.
#[global] Instance EvaluationResponseBody_eq_dec : EqDecision EvaluationResponseBody.
Proof. solve_decision. Defined.
#[global] Instance Outcome_eq_dec : EqDecision Outcome.
Proof. solve_decision. Defined.
#[global] Instance ResolvingError_eq_dec : EqDecision ResolvingError.
Proof. solve_decision. Defined.

(** ** ./utils *)

(** JavaScript truthiness of a string: every string but the empty one. *)
Definition truthy (s : string) : bool :=
  match s with
  | EmptyString => false
  | String _ _ => true
  end.

(** [a || b] on values that are a string, [null] or [undefined]. *)
Definition or_else (a b : option string) : option string :=
  match a with
  | Some s => if truthy s then Some s else b
  | None => b
  end.

(** Modelled from the spec: [deepEqual] of ./utils. Two inputs are equal iff
    all their fields are deep-equal, whatever the insertion order of the keys;
    dictionaries are [gmap]s, for which that is equality. The reducer also
    calls it with [state.pending?.input], so an argument may be [undefined]
    ([None]), which no input equals. *)
Definition deepEqual (a b : option Input) : bool := bool_decide (a = b).

(** Modelled from the spec: [ObjectMap] of ./utils, a mapping from keys
    compared by structure, not by identity, to the value stored last for that
    key; nothing is evicted. *)
Module ObjectMap.

Definition t : Type := list (Input * Outcome).

Definition empty : t := [].

Fixpoint get (m : t) (k : Input) : option Outcome :=
  match m with
  | [] => None
  | (k', v) :: m' => if deepEqual (Some k) (Some k') then Some v else get m' k
  end.

Fixpoint set (m : t) (k : Input) (v : Outcome) : t :=
  match m with
  | [] => [(k, v)]
  | (k', v') :: m' =>
      if deepEqual (Some k) (Some k') then (k', v) :: m'
      else (k', v') :: set m' k v
  end.

End ObjectMap.

(** Modelled from the spec: the visitor identity is one string-valued cookie
    of fixed name; [serializeVisitorKeyCookie] builds the assignment that
    stores the key under that name. *)
Definition visitorKeyCookie : string := "hkvk"%string.

Definition serializeVisitorKeyCookie (visitorKey : string) : string * string :=
  (visitorKeyCookie, visitorKey).

(** Modelled from the spec: [getCookie] reads one cookie of the jar. *)
Definition getCookie (jar : gmap string string) (name : string) : option string :=
  jar !! name.

(** Modelled from the spec: raw flags merged with the default flags, the raw
    value winning on every key it defines. *)
Definition combineRawFlagsWithDefaultFlags
    (rawFlags : option Flags) (defaultFlags : Flags) : Flags :=
  match rawFlags with
  | None => defaultFlags
  | Some raw => raw ∪ defaultFlags
  end.

(** ** The mutable world of the module *)

Record World := {
  cache : ObjectMap.t;               (* export const cache = new ObjectMap() *)
  cookie : gmap string string;       (* document.cookie *)
}.

(** A computation that may read and write the world. *)
Definition M (A : Type) : Type := World → A * World.

#[global] Instance M_ret : MRet M := λ A a w, (a, w).

#[global] Instance M_bind : MBind M :=
  λ A B k c w, let '(a, w') := c w in k a w'.

(** [cache.get(key)] *)
Definition cache_get (k : Input) : M (option Outcome) :=
  λ w, (ObjectMap.get (cache w) k, w).

(** [cache.set(key, value)] *)
Definition cache_set (k : Input) (v : Outcome) : M unit :=
  λ w, (tt, {| cache := ObjectMap.set (cache w) k v; cookie := cookie w |}).

(** [document.cookie = assignment] *)
Definition set_document_cookie (assignment : string * string) : M unit :=
  λ w, (tt, {| cache := cache w;
               cookie := <[assignment.1 := assignment.2]> (cookie w) |}).

(** ** client.ts: state, actions, effects *)

Inductive Current :=
  | Resolved (input : Input) (outcome : Outcome)
  | Failed (input : Input) (error : ResolvingError) (cachedOutcome : option Outcome).

Record Pending := {
  pending_input : Input;
  pending_cachedOutcome : option Outcome;
}.

Record State := {
  current : option Current;
  pending : option Pending;
}.

Inductive Action :=
  | evaluate (input : Input)
  | revalidate
  | settle_success (input : Input) (outcome : Outcome)
  | settle_failure (input : Input) (error : ResolvingError).

Inductive Effect :=
  | fetch (input : Input).

#[global] Instance Current_eq_dec : EqDecision Current.
Proof. solve_decision. Defined.
#[global] Instance Pending_eq_dec : EqDecision Pending.
Proof. solve_decision. Defined.
#[global] Instance State_eq_dec : EqDecision State.
Proof. solve_decision. Defined.
#[global] Instance Action_eq_dec : EqDecision Action.
Proof. solve_decision. Defined.
#[global] Instance Effect_eq_dec : EqDecision Effect.
Proof. solve_decision. Defined.

(** [state.current.input] *)
Definition current_input (c : Current) : Input :=
  match c with
  | Resolved input _ => input
  | Failed input _ _ => input
  end.

(** [state.current.outcome] *)
Definition current_outcome (c : Current) : option Outcome :=
  match c with
  | Resolved _ outcome => Some outcome
  | Failed _ _ _ => None
  end.

(** [state.current.error] *)
Definition current_error (c : Current) : option ResolvingError :=
  match c with
  | Resolved _ _ => None
  | Failed _ error _ => Some error
  end.

(** [state.current.cachedOutcome] *)
Definition current_cachedOutcome (c : Current) : option Outcome :=
  match c with
  | Resolved _ _ => None
  | Failed _ _ cachedOutcome => cachedOutcome
  end.

(** [outcome.responseBody.visitor?.key] *)
Definition outcome_visitorKey (outcome : Outcome) : option string :=
  key <$> visitor (responseBody outcome).

(** [outcome.responseBody.flags] *)
Definition outcome_flags (outcome : Outcome) : Flags :=
  flags (responseBody outcome).

(** [input.requestBody.visitorKey] *)
Definition input_visitorKey (input : Input) : string :=
  visitorKey (requestBody input).

(** [state.current?.outcome] *)
Definition settled_outcome (state : State) : option Outcome :=
  current state ≫= current_outcome.

Definition isEmergingInput (input : Input) (state : State) : bool :=
  match pending state with
  | Some p => if deepEqual (Some (pending_input p)) (Some input) then false else true
  | None =>
      match current state with
      | Some c => if deepEqual (Some (current_input c)) (Some input) then false else true
      | None => true
      end
  end.

(** The reducer works on the tuple [[state, effects]].  Where the source says
    [return tuple] it hands back the very array it was given: React sees the
    same reducer state, and the effect hook, which depends on [effects], does
    not run again.  Every other branch builds a new tuple with a new effect
    array.  [Reduced] keeps the two apart. *)
Definition Tuple : Type := State * list Effect.

Inductive Reduced :=
  | SameTuple
  | NewTuple (state : State) (effects : list Effect).

Definition reducer (tuple : Tuple) (action : Action) : M Reduced :=
  let state := tuple.1 in
  match action with
  | evaluate input =>
      cachedOutcome ← cache_get input;
      mret (NewTuple
        {| current := current state;
           pending := Some {| pending_input := input;
                              pending_cachedOutcome := cachedOutcome |} |}
        [fetch input])
  | revalidate =>
      (* state.pending?.input || state.current?.input *)
      let latestInput :=
        match pending state with
        | Some p => Some (pending_input p)
        | None => current_input <$> current state
        end in
      match latestInput with
      | None => mret SameTuple
      | Some latestInput =>
          cachedOutcome ← cache_get latestInput;
          mret (NewTuple
            {| current := current state;
               pending := Some {| pending_input := latestInput;
                                  pending_cachedOutcome := cachedOutcome |} |}
            [fetch latestInput])
      end
  | settle_success input outcome =>
      if negb (deepEqual (Some input) (pending_input <$> pending state))
      then mret SameTuple
      else
        cache_set input outcome;;
        (* action.outcome.responseBody.visitor?.key *)
        match outcome_visitorKey outcome with
        | Some visitorKey =>
            if truthy visitorKey
            then set_document_cookie (serializeVisitorKeyCookie visitorKey)
            else mret tt
        | None => mret tt
        end;;
        mret (NewTuple
          {| current := Some (Resolved input outcome); pending := None |}
          [])
  | settle_failure input error =>
      if negb (deepEqual (Some input) (pending_input <$> pending state))
      then mret SameTuple
      else
        cachedOutcome ← cache_get input;
        mret (NewTuple
          {| current := Some (Failed input error cachedOutcome); pending := None |}
          [])
  end.

(** [React.useReducer(reducer, options.initialState, init)]: the first tuple. *)
Definition initialTuple (initialState : option InitialFlagState) : Tuple :=
  ({| current :=
        match initialState with
        | Some (InitialOutcome input outcome) => Some (Resolved input outcome)
        | Some (InitialError input error) => Some (Failed input error None)
        | None => None
        end;
      pending := None |},
   []).

(** The effect that adds [options.initialState] to the cache: successful,
    non-static initial states only. *)
Definition cacheInitialState (initialState : option InitialFlagState) : M unit :=
  match initialState with
  | Some (InitialOutcome input outcome) =>
      if negb (static (requestBody input)) then cache_set input outcome else mret tt
  | _ => mret tt
  end.

(** One [dispatch(action)] of the hook: the tuple React keeps afterwards, and
    the effects the effect hook executes once that tuple is committed.  That
    hook runs [effects.forEach] when [effects] is a new array, so a
    [SameTuple] runs nothing and a committed [NewTuple] runs exactly its
    effects.  The second component is that of a dispatch rendered on its own:
    when React batches several dispatches into one render only the last
    tuple is committed, and only its effects run. *)
Definition dispatch (tuple : Tuple) (action : Action) : M (Tuple * list Effect) :=
  r ← reducer tuple action;
  mret (match r with
        | SameTuple => (tuple, [])
        | NewTuple state effects => ((state, effects), effects)
        end).

(** A sequence of dispatches, each committed before the next, with all the
    effects executed on the way. *)
Fixpoint dispatch_all (tuple : Tuple) (actions : list Action) : M (Tuple * list Effect) :=
  match actions with
  | [] => mret (tuple, [])
  | action :: actions' =>
      r ← dispatch tuple action;
      r' ← dispatch_all r.1 actions';
      mret (r'.1, r.2 ++ r'.2)
  end.

(** ** The effect runner *)

(** A promise that has settled. *)
Inductive Promise (A : Type) :=
  | Fulfilled (value : A)
  | Rejected.
Arguments Fulfilled {A} value.
Arguments Rejected {A}.

(** What the runner sees of a response: [response.ok] and the promise of
    [response.json()], rejected when the body does not parse. *)
Record Response := {
  ok : bool;
  json : Promise EvaluationResponseBody;
}.

(** A handler dispatches actions and settles the promise it returns. *)
Definition Handled : Type := list Action * Promise unit.

(** [promise.then(onFulfilled, onRejected)]: [onRejected] is called for a
    rejection of [promise] itself, never for one raised by [onFulfilled]. *)
Definition then_ {A} (promise : Promise A)
    (onFulfilled : A → Handled) (onRejected : unit → Handled) : Handled :=
  match promise with
  | Fulfilled value => onFulfilled value
  | Rejected => onRejected tt
  end.

(** [handled.catch(onRejected)] *)
Definition catch (handled : Handled) (onRejected : unit → Handled) : Handled :=
  match handled with
  | (dispatched, Fulfilled _) => handled
  | (dispatched, Rejected) =>
      let '(dispatched', settled) := onRejected tt in
      (dispatched ++ dispatched', settled)
  end.

(** The body of [effects.forEach]; [fetched] is how the call
    [fetch(url, { method: "POST", ... })] for this effect settles, rejected on
    a transport-level failure. *)
Definition runEffect (fetched : Promise Response) (effect : Effect) : list Action :=
  match effect with
  | fetch input =>
      (catch
        (then_ fetched
          (λ response,
            (* const responseBody = await response.json() *)
            match json response with
            | Rejected => ([], Rejected)
            | Fulfilled responseBody =>
                if ok response
                then
                  let outcome := {| responseBody := responseBody |} in
                  ([settle_success input outcome], Fulfilled tt)
                else ([settle_failure input response_not_ok], Fulfilled tt)
            end)
          (λ _, ([settle_failure input invalid_response_body], Fulfilled tt)))
        (λ _, ([settle_failure input network_error], Fulfilled tt))).1
  end.

(** ** The mount effect, the focus handler and the revalidate handle *)

(** The fields of [config] (./config) the hook reads.  [useFlags] throws
    [MissingConfigurationError] before anything else when the package is not
    configured, so a configuration is at hand wherever the hook runs. *)
Record Config := {
  config_endpoint : string;
  config_envKey : string;
  config_defaultFlags : Flags;
  config_revalidateOnFocus : bool;
}.

Record UseFlagsOptions := {
  options_user : option FlagUser;
  options_traits : option Traits;
  options_initialState : option InitialFlagState;
  options_revalidateOnFocus : option bool;
  options_ready : option bool;
}.

(** When ready is undefined, it counts as true. *)
Definition isReady (ready : option bool) : bool :=
  match ready with
  | None => true
  | Some ready => ready
  end.

Definition shouldRevalidateOnFocus (config : Config) (options : UseFlagsOptions) : bool :=
  match options_revalidateOnFocus options with
  | None => config_revalidateOnFocus config
  | Some revalidateOnFocus => revalidateOnFocus
  end.

(** The visitor key of the next input: the cookie, else the pending request's
    key, else the key the last outcome assigned, else the generated one. *)
Definition resolveVisitorKey (generatedVisitorKey : string) (state : State) (w : World)
    : string :=
  default generatedVisitorKey
    (or_else (getCookie (cookie w) visitorKeyCookie)
      (or_else (input_visitorKey ∘ pending_input <$> pending state)
        (or_else
          (settled_outcome state ≫= outcome_visitorKey)
          None))).

Definition currentInput (config : Config) (options : UseFlagsOptions)
    (generatedVisitorKey : string) (state : State) (w : World) : Input :=
  {| endpoint := config_endpoint config;
     envKey := config_envKey config;
     requestBody :=
       {| visitorKey := resolveVisitorKey generatedVisitorKey state w;
          user := options_user options;
          traits := options_traits options;
          static := false |} |}.

(** The effect over [state], the user, the traits, [shouldRevalidateOnFocus]
    and [options.ready]: what it dispatches when it runs, and whether it leaves
    a [visibilitychange] listener installed. *)
Definition mountEffect (config : Config) (options : UseFlagsOptions)
    (generatedVisitorKey : string) (state : State) (w : World) : list Action * bool :=
  let input := currentInput config options generatedVisitorKey state w in
  (if isEmergingInput input state && isReady (options_ready options)
   then [evaluate input] else [],
   shouldRevalidateOnFocus config options).

Inductive VisibilityState :=
  | visible
  | hidden.

Definition handleFocus (options : UseFlagsOptions) (visibilityState : VisibilityState)
    : list Action :=
  match visibilityState with
  | visible => if isReady (options_ready options) then [revalidate] else []
  | hidden => []
  end.

(** [React.useCallback(() => dispatch({ type: "revalidate" }), [dispatch])] *)
Definition revalidateHandle : list Action := [revalidate].

(** The ways the hook comes to dispatch an evaluation or a revalidation. *)
Inductive Trigger :=
  | Rendered                                  (* the mount effect runs *)
  | VisibilityChange (v : VisibilityState)    (* the document gains or loses focus *)
  | RevalidateCalled.                         (* the consumer calls flagBag.revalidate() *)

Definition dispatched (config : Config) (options : UseFlagsOptions)
    (generatedVisitorKey : string) (state : State) (w : World) (t : Trigger)
    : list Action :=
  match t with
  | Rendered => (mountEffect config options generatedVisitorKey state w).1
  | VisibilityChange v =>
      if (mountEffect config options generatedVisitorKey state w).2
      then handleFocus options v else []
  | RevalidateCalled => revalidateHandle
  end.

(** ** The flag bag *)

Record FlagBag := {
  bag_flags : option Flags;
  bag_rawFlags : option Flags;
  bag_fetching : bool;
  bag_settled : bool;
  bag_visitorKey : option string;
  bag_revalidate : list Action;
}.

Definition flagBag (state : State) (defaultFlags : Flags) : FlagBag :=
  let rawFlags :=
    outcome_flags <$> settled_outcome state in
  let flags := combineRawFlagsWithDefaultFlags rawFlags defaultFlags in
  {| bag_flags := match rawFlags with Some _ => Some flags | None => None end;
     bag_rawFlags := rawFlags;
     bag_fetching := match pending state with Some _ => true | None => false end;
     bag_settled :=
       match current state with
       | Some c => negb (static (requestBody (current_input c)))
       | None => false
       end;
     bag_visitorKey :=
       or_else
         (settled_outcome state ≫= outcome_visitorKey)
         (or_else (input_visitorKey ∘ current_input <$> current state)
           (or_else (input_visitorKey ∘ pending_input <$> pending state)
             None));
     bag_revalidate := revalidateHandle |}.

(** ** Concrete values for the scenarios *)

Module Scenario.

Definition config : Config :=
  {| config_endpoint := "https://happykit.dev/api/flags"%string;
     config_envKey := "flags_pub_development"%string;
     config_defaultFlags := {[ "size"%string := FStr "small"; "beta"%string := FBool false ]};
     config_revalidateOnFocus := true |}.

Definition input_of (visitorKey : string) (traits : option Traits) (static : bool) : Input :=
  {| endpoint := config_endpoint config;
     envKey := config_envKey config;
     requestBody :=
       {| visitorKey := visitorKey; user := None; traits := traits; static := static |} |}.

Definition inputA : Input :=
  input_of "v1" (Some {[ "employee"%string := SBool true ]}) false.

Definition inputB : Input :=
  input_of "v1" (Some {[ "employee"%string := SBool false ]}) false.

Definition inputStatic : Input := input_of EmptyString None true.

Definition outcome_of (flags : Flags) (visitorKey : option string) : Outcome :=
  {| responseBody := {| flags := flags; visitor := (λ k, {| key := k |}) <$> visitorKey |} |}.

Definition outcomeA : Outcome := outcome_of {[ "x"%string := FBool true ]} (Some "v1"%string).

Definition outcomeB : Outcome := outcome_of {[ "size"%string := FStr "large" ]} None.

Definition world0 : World := {| cache := ObjectMap.empty; cookie := ∅ |}.

Definition idle : State := {| current := None; pending := None |}.

(** [evaluate(inputB)] was dispatched and has not settled. *)
Definition awaitingB : State :=
  {| current := None;
     pending := Some {| pending_input := inputB; pending_cachedOutcome := None |} |}.

Definition options_of (ready : option bool) : UseFlagsOptions :=
  {| options_user := None;
     options_traits := None;
     options_initialState := None;
     options_revalidateOnFocus := None;
     options_ready := ready |}.

End Scenario.

(** ** Notions the properties are stated with *)

(** The actions that settle a request. *)
Definition settles (action : Action) : bool :=
  match action with
  | settle_success _ _ | settle_failure _ _ => true
  | evaluate _ | revalidate => false
  end.

(** [action.input] of a settle action. *)
Definition settled_input (action : Action) : option Input :=
  match action with
  | settle_success input _ | settle_failure input _ => Some input
  | evaluate _ | revalidate => None
  end.

(** The state reached by [evaluate(input)] followed by
    [settle/success(input', outcome)], with the world it leaves. *)
Definition evaluated_then_settled (tuple : Tuple) (input input' : Input)
    (outcome : Outcome) (w : World) : Tuple * list Effect * World :=
  dispatch_all tuple [evaluate input; settle_success input' outcome] w.

(** The classification in the spec's words: settle/success with the parsed
    outcome on a successful response, response-not-ok on a non-success status,
    invalid-response-body on a body that fails to parse, network-error when no
    response arrives. *)
Definition settle_by_the_spec (fetched : Promise Response) (input : Input) : Action :=
  match fetched with
  | Rejected => settle_failure input network_error
  | Fulfilled response =>
      if ok response
      then
        match json response with
        | Fulfilled responseBody =>
            settle_success input {| responseBody := responseBody |}
        | Rejected => settle_failure input invalid_response_body
        end
      else settle_failure input response_not_ok
  end.

(** The options with [ready] replaced. *)
Definition with_ready (options : UseFlagsOptions) (ready : option bool) : UseFlagsOptions :=
  {| options_user := options_user options;
     options_traits := options_traits options;
     options_initialState := options_initialState options;
     options_revalidateOnFocus := options_revalidateOnFocus options;
     options_ready := ready |}.

(** The input the mount effect builds, by the visitor key it resolved. *)
Definition inputWith (config : Config) (options : UseFlagsOptions) (visitorKey : string)
    : Input :=
  {| endpoint := config_endpoint config;
     envKey := config_envKey config;
     requestBody :=
       {| visitorKey := visitorKey;
          user := options_user options;
          traits := options_traits options;
          static := false |} |}.

(** The effect array of a tuple holds nothing, or the one fetch of the pending
    input. *)
Definition effects_match_pending (tuple : Tuple) : Prop :=
  match tuple.2 with
  | [] => True
  | [fetch input] => pending_input <$> pending tuple.1 = Some input
  | _ => False
  end.

(** The tuple the hook holds once the reducer has returned: the one it was
    given, or the new one. *)
Definition next_tuple (tuple : Tuple) (r : Reduced) : Tuple :=
  match r with
  | SameTuple => tuple
  | NewTuple state effects => (state, effects)
  end.

(** A cache never loses an entry on the way from [w] to [w']. *)
Definition cache_grows (w w' : World) : Prop :=
  ∀ k, is_Some (ObjectMap.get (cache w) k) → is_Some (ObjectMap.get (cache w') k).

(** * Properties *)

Ltac unfold_reducer :=
  unfold dispatch, reducer, mbind, mret, M_bind, M_ret,
    cache_get, cache_set, set_document_cookie; simpl.

(** ** deepEqual and the cache *)

Lemma deepEqual_true (a b : option Input) : deepEqual a b = true ↔ a = b.
Proof. unfold deepEqual. apply bool_decide_eq_true. Qed.

Lemma deepEqual_false (a b : option Input) : deepEqual a b = false ↔ a ≠ b.
Proof. unfold deepEqual. apply bool_decide_eq_false. Qed.

Lemma deepEqual_refl (a : option Input) : deepEqual a a = true.
Proof. by apply deepEqual_true. Qed.

Lemma deepEqual_undefined (input : Input) : deepEqual (Some input) None = false.
Proof. by apply deepEqual_false. Qed.

Lemma ObjectMap_get_set (m : ObjectMap.t) (k : Input) (v : Outcome) :
  ObjectMap.get (ObjectMap.set m k v) k = Some v.
Proof.
  induction m as [|[k' v'] m IH]; simpl.
  - by rewrite deepEqual_refl.
  - destruct (deepEqual (Some k) (Some k')) eqn:E; simpl; by rewrite E.
Qed.

Lemma ObjectMap_get_set_ne (m : ObjectMap.t) (k k' : Input) (v : Outcome) :
  k ≠ k' → ObjectMap.get (ObjectMap.set m k v) k' = ObjectMap.get m k'.
Proof.
  intros Hne. induction m as [|[k0 v0] m IH]; simpl.
  - assert (deepEqual (Some k') (Some k) = false) as ->; [|done].
    apply deepEqual_false. congruence.
  - destruct (deepEqual (Some k) (Some k0)) eqn:E; simpl.
    + apply deepEqual_true in E. injection E as <-.
      assert (deepEqual (Some k') (Some k) = false) as ->; [|done].
      apply deepEqual_false. congruence.
    + by rewrite IH.
Qed.

Lemma ObjectMap_get_never_set (m : ObjectMap.t) (k : Input) :
  Forall (λ entry, entry.1 ≠ k) m → ObjectMap.get m k = None.
Proof.
  induction 1 as [|[k' v'] m Hne _ IH]; simpl; [done|].
  assert (deepEqual (Some k) (Some k') = false) as ->; [|done].
  apply deepEqual_false. simpl in Hne. congruence.
Qed.

(** ** The reducer, one action at a time *)

Lemma reducer_evaluate (tuple : Tuple) (input : Input) (w : World) :
  reducer tuple (evaluate input) w =
    (NewTuple
       {| current := current tuple.1;
          pending := Some {| pending_input := input;
                             pending_cachedOutcome := ObjectMap.get (cache w) input |} |}
       [fetch input], w).
Proof. by unfold_reducer. Qed.

Lemma reducer_settle_stale (tuple : Tuple) (action : Action) (input : Input) (w : World) :
  (∃ outcome, action = settle_success input outcome) ∨
  (∃ error, action = settle_failure input error) →
  deepEqual (Some input) (pending_input <$> pending tuple.1) = false →
  reducer tuple action w = (SameTuple, w).
Proof.
  intros [[outcome ->]|[error ->]] Hstale; unfold_reducer; by rewrite Hstale.
Qed.

Lemma reducer_settle_success (tuple : Tuple) (input : Input) (outcome : Outcome) (w : World) :
  deepEqual (Some input) (pending_input <$> pending tuple.1) = true →
  reducer tuple (settle_success input outcome) w =
    (NewTuple {| current := Some (Resolved input outcome); pending := None |} [],
     {| cache := ObjectMap.set (cache w) input outcome;
        cookie :=
          match outcome_visitorKey outcome with
          | Some visitorKey =>
              if truthy visitorKey
              then <[visitorKeyCookie := visitorKey]> (cookie w)
              else cookie w
          | None => cookie w
          end |}).
Proof.
  intros Hfresh. unfold_reducer. rewrite Hfresh. simpl.
  destruct (outcome_visitorKey outcome) as [k|]; [destruct (truthy k)|]; done.
Qed.

Lemma reducer_settle_failure (tuple : Tuple) (input : Input) (error : ResolvingError)
    (w : World) :
  deepEqual (Some input) (pending_input <$> pending tuple.1) = true →
  reducer tuple (settle_failure input error) w =
    (NewTuple
       {| current := Some (Failed input error (ObjectMap.get (cache w) input));
          pending := None |} [], w).
Proof. intros Hfresh. unfold_reducer. by rewrite Hfresh. Qed.

Lemma dispatch_reduced (tuple : Tuple) (action : Action) (w : World) :
  dispatch tuple action w =
    match reducer tuple action w with
    | (SameTuple, w') => ((tuple, []), w')
    | (NewTuple state effects, w') => (((state, effects), effects), w')
    end.
Proof.
  unfold dispatch, mbind, mret, M_bind, M_ret.
  by destruct (reducer tuple action w) as [[|state effects] w'].
Qed.

(** ** Stale and late responses *)

Section StaleResponses.

Variables (state : State) (effects : list Effect).
Variables (input : Input) (outcome : Outcome) (error : ResolvingError).
Variable w : World.

(** C1: while a request is pending, a settle/success or settle/failure whose
    input is not deep-equal to the pending input is a no-op.  The reducer
    hands back the tuple it was given, so the state is unchanged and no
    effect is run, and the world (the cache and the cookie jar) is the one
    it started from. *)
Theorem stale_settle_is_noop (p : Pending) :
  pending state = Some p →
  deepEqual (Some input) (Some (pending_input p)) = false →
  reducer (state, effects) (settle_success input outcome) w = (SameTuple, w) ∧
  reducer (state, effects) (settle_failure input error) w = (SameTuple, w) ∧
  dispatch (state, effects) (settle_success input outcome) w
    = ((state, effects), [], w) ∧
  dispatch (state, effects) (settle_failure input error) w
    = ((state, effects), [], w).
Proof.
  intros Hp Hstale.
  assert (deepEqual (Some input) (pending_input <$> pending (state, effects).1) = false)
    as Hne by (simpl; by rewrite Hp).
  rewrite !dispatch_reduced.
  rewrite (reducer_settle_stale _ (settle_success input outcome) input) by eauto.
  rewrite (reducer_settle_stale _ (settle_failure input error) input) by eauto.
  done.
Qed.

(** C9: with nothing pending, every settle/success and settle/failure is a
    no-op, whatever its input, the current one included: the tuple and the
    world are unchanged and no effect is run. *)
Theorem settle_without_pending_is_noop :
  pending state = None →
  reducer (state, effects) (settle_success input outcome) w = (SameTuple, w) ∧
  reducer (state, effects) (settle_failure input error) w = (SameTuple, w) ∧
  dispatch (state, effects) (settle_success input outcome) w
    = ((state, effects), [], w) ∧
  dispatch (state, effects) (settle_failure input error) w
    = ((state, effects), [], w).
Proof.
  intros Hp.
  assert (deepEqual (Some input) (pending_input <$> pending (state, effects).1) = false)
    as Hne by (simpl; rewrite Hp; apply deepEqual_undefined).
  rewrite !dispatch_reduced.
  rewrite (reducer_settle_stale _ (settle_success input outcome) input) by eauto.
  rewrite (reducer_settle_stale _ (settle_failure input error) input) by eauto.
  done.
Qed.

End StaleResponses.

Lemma stale_settle_is_noop_witness :
  let tuple := (Scenario.awaitingB, [fetch Scenario.inputB]) in
  reducer tuple (settle_success Scenario.inputA Scenario.outcomeA) Scenario.world0
    = (SameTuple, Scenario.world0) ∧
  reducer tuple (settle_failure Scenario.inputA network_error) Scenario.world0
    = (SameTuple, Scenario.world0) ∧
  dispatch tuple (settle_success Scenario.inputA Scenario.outcomeA) Scenario.world0
    = (tuple, [], Scenario.world0) ∧
  dispatch tuple (settle_failure Scenario.inputA network_error) Scenario.world0
    = (tuple, [], Scenario.world0).
Proof.
  apply (stale_settle_is_noop Scenario.awaitingB [fetch Scenario.inputB]
           Scenario.inputA Scenario.outcomeA network_error Scenario.world0
           {| pending_input := Scenario.inputB; pending_cachedOutcome := None |}).
  - reflexivity.
  - vm_compute. reflexivity.
Defined.

Lemma settle_without_pending_is_noop_witness :
  let settled := {| current := Some (Resolved Scenario.inputA Scenario.outcomeA);
                    pending := None |} in
  reducer (settled, []) (settle_success Scenario.inputA Scenario.outcomeB) Scenario.world0
    = (SameTuple, Scenario.world0) ∧
  reducer (settled, []) (settle_failure Scenario.inputA network_error) Scenario.world0
    = (SameTuple, Scenario.world0) ∧
  dispatch (settled, []) (settle_success Scenario.inputA Scenario.outcomeB) Scenario.world0
    = ((settled, []), [], Scenario.world0) ∧
  dispatch (settled, []) (settle_failure Scenario.inputA network_error) Scenario.world0
    = ((settled, []), [], Scenario.world0).
Proof.
  apply (settle_without_pending_is_noop
           {| current := Some (Resolved Scenario.inputA Scenario.outcomeA);
              pending := None |}
           [] Scenario.inputA Scenario.outcomeB network_error Scenario.world0).
  reflexivity.
Defined.

(** ** Settling the pending request *)

Section Settle.

Variables (state : State) (effects : list Effect) (w : World).

(** C5: a settle/failure whose input is deep-equal to the pending input makes
    [current] a failure for that input, with no outcome, the dispatched
    error and the cache's entry for the input ([None] when the input was
    never cached), and clears [pending]. *)
Theorem settle_failure_of_pending (p : Pending) (input : Input) (error : ResolvingError) :
  pending state = Some p →
  deepEqual (Some input) (Some (pending_input p)) = true →
  ∃ c,
    dispatch (state, effects) (settle_failure input error) w
      = (({| current := Some c; pending := None |}, []), [], w) ∧
    current_input c = input ∧
    current_outcome c = None ∧
    current_error c = Some error ∧
    current_cachedOutcome c = ObjectMap.get (cache w) input ∧
    (Forall (λ entry, entry.1 ≠ input) (cache w) → current_cachedOutcome c = None).
Proof.
  intros Hp Hfresh.
  exists (Failed input error (ObjectMap.get (cache w) input)).
  rewrite dispatch_reduced, reducer_settle_failure by (simpl; by rewrite Hp).
  repeat split. simpl. apply ObjectMap_get_never_set.
Qed.

(** C8: revalidate with neither a pending nor a current entry leaves the
    tuple and the world unchanged and runs no effect; otherwise it takes
    the pending input, or the current one when nothing is pending, makes it
    the pending entry together with the cache's entry for it, keeps
    [current], and emits exactly one fetch for it. *)
Theorem revalidate_latest_input :
  match pending state, current state with
  | None, None =>
      reducer (state, effects) revalidate w = (SameTuple, w) ∧
      dispatch (state, effects) revalidate w = ((state, effects), [], w)
  | Some p, _ =>
      let latestInput := pending_input p in
      dispatch (state, effects) revalidate w
        = (({| current := current state;
               pending := Some {| pending_input := latestInput;
                                  pending_cachedOutcome :=
                                    ObjectMap.get (cache w) latestInput |} |},
            [fetch latestInput]), [fetch latestInput], w)
  | None, Some c =>
      let latestInput := current_input c in
      dispatch (state, effects) revalidate w
        = (({| current := current state;
               pending := Some {| pending_input := latestInput;
                                  pending_cachedOutcome :=
                                    ObjectMap.get (cache w) latestInput |} |},
            [fetch latestInput]), [fetch latestInput], w)
  end.
Proof.
  destruct state as [[c|] [p|]]; unfold_reducer; done.
Qed.

End Settle.

Lemma settle_failure_of_pending_witness :
  ∃ c,
    dispatch (Scenario.awaitingB, [fetch Scenario.inputB])
        (settle_failure Scenario.inputB network_error) Scenario.world0
      = (({| current := Some c; pending := None |}, []), [], Scenario.world0) ∧
    current_input c = Scenario.inputB ∧
    current_outcome c = None ∧
    current_error c = Some network_error ∧
    current_cachedOutcome c = ObjectMap.get (cache Scenario.world0) Scenario.inputB ∧
    (Forall (λ entry, entry.1 ≠ Scenario.inputB) (cache Scenario.world0) →
     current_cachedOutcome c = None).
Proof.
  apply (settle_failure_of_pending Scenario.awaitingB [fetch Scenario.inputB]
           Scenario.world0
           {| pending_input := Scenario.inputB; pending_cachedOutcome := None |}).
  - reflexivity.
  - vm_compute. reflexivity.
Defined.

(** ** Evaluate, then settle with success *)

Lemma evaluated_then_settled_eq (tuple : Tuple) (input input' : Input)
    (outcome : Outcome) (w : World) :
  deepEqual (Some input') (Some input) = true →
  evaluated_then_settled tuple input input' outcome w =
    (({| current := Some (Resolved input' outcome); pending := None |}, []),
     [fetch input],
     {| cache := ObjectMap.set (cache w) input' outcome;
        cookie :=
          match outcome_visitorKey outcome with
          | Some visitorKey =>
              if truthy visitorKey
              then <[visitorKeyCookie := visitorKey]> (cookie w)
              else cookie w
          | None => cookie w
          end |}).
Proof.
  intros Hsame. unfold evaluated_then_settled, dispatch_all.
  unfold mbind at 1, M_bind at 1. rewrite dispatch_reduced, reducer_evaluate.
  unfold mbind at 1, M_bind at 1. unfold mbind at 1, M_bind at 1.
  rewrite dispatch_reduced, reducer_settle_success by done.
  done.
Qed.

(** C2: after evaluate(input) and settle/success(input', outcome) with input'
    deep-equal to input, the cache maps the input to the outcome, [current] is
    the pair of the input and the outcome, [pending] is cleared, and the
    visitor key the response body carries is stored in the visitor cookie.
    The reducer reads "carries a key" as [if (visitorKey)], so the empty
    string counts as no key; without a key the cookie jar is left as it
    was. *)
Theorem evaluate_then_settle_success (tuple : Tuple) (input input' : Input)
    (outcome : Outcome) (w : World) :
  deepEqual (Some input') (Some input) = true →
  let r := evaluated_then_settled tuple input input' outcome w in
  ObjectMap.get (cache r.2) input = Some outcome ∧
  current r.1.1.1 = Some (Resolved input outcome) ∧
  pending r.1.1.1 = None ∧
  match outcome_visitorKey outcome with
  | Some visitorKey =>
      if truthy visitorKey
      then cookie r.2 !! visitorKeyCookie = Some visitorKey
      else cookie r.2 = cookie w
  | None => cookie r.2 = cookie w
  end.
Proof.
  intros Hsame r. subst r. rewrite evaluated_then_settled_eq by done.
  apply deepEqual_true in Hsame. injection Hsame as ->. simpl.
  split; [apply ObjectMap_get_set|]. do 2 (split; [done|]).
  destruct (outcome_visitorKey outcome) as [k|]; [|done].
  destruct (truthy k); [|done]. apply lookup_insert_eq.
Qed.

Lemma evaluate_then_settle_success_witness :
  let r := evaluated_then_settled (initialTuple None)
             Scenario.inputA Scenario.inputA Scenario.outcomeA Scenario.world0 in
  ObjectMap.get (cache r.2) Scenario.inputA = Some Scenario.outcomeA ∧
  current r.1.1.1 = Some (Resolved Scenario.inputA Scenario.outcomeA) ∧
  pending r.1.1.1 = None ∧
  cookie r.2 !! visitorKeyCookie = Some "v1"%string.
Proof.
  apply (evaluate_then_settle_success (initialTuple None)
           Scenario.inputA Scenario.inputA Scenario.outcomeA Scenario.world0).
  vm_compute. reflexivity.
Defined.

(** ** The flag bag *)

Section FlagBag.

Variables (state : State) (defaultFlags : Flags).

(** C6: [rawFlags] is the flags of the current outcome, or null when there
    is no current entry or it is a failure; [flags] is null whenever
    [rawFlags] is, and otherwise holds, key by key, the raw value where
    [rawFlags] has the key and the default value elsewhere. *)
Theorem flagBag_flags :
  let bag := flagBag state defaultFlags in
  match current state with
  | Some (Resolved _ outcome) => bag_rawFlags bag = Some (flags (responseBody outcome))
  | _ => bag_rawFlags bag = None
  end ∧
  match bag_rawFlags bag with
  | None => bag_flags bag = None
  | Some rawFlags =>
      ∃ merged, bag_flags bag = Some merged ∧
        ∀ k, merged !! k =
               match rawFlags !! k with
               | Some v => Some v
               | None => defaultFlags !! k
               end
  end.
Proof.
  destruct state as [[[i o|i e c]|] p]; simpl; split; try done.
  eexists. split; [done|]. intros k. rewrite lookup_union.
  destruct (flags (responseBody o) !! k), (defaultFlags !! k); done.
Qed.

(** C7: [settled] is true iff [current] is non-null and its input is not a
    static one, [fetching] is true iff [pending] is non-null, and a
    settle/success of a static input that matches the pending one leaves
    [settled] false. *)
Theorem flagBag_settled_fetching :
  (bag_settled (flagBag state defaultFlags) = true ↔
     ∃ c, current state = Some c ∧ static (requestBody (current_input c)) = false) ∧
  (bag_fetching (flagBag state defaultFlags) = true ↔ is_Some (pending state)) ∧
  (∀ effects input outcome w,
     static (requestBody input) = true →
     deepEqual (Some input) (pending_input <$> pending state) = true →
     let next := (dispatch (state, effects) (settle_success input outcome) w).1.1.1 in
     current next = Some (Resolved input outcome) ∧
     bag_settled (flagBag next defaultFlags) = false).
Proof.
  split; [|split].
  - destruct state as [[c|] p]; simpl.
    + rewrite negb_true_iff. split; [eauto|]. by intros (? & [= <-] & ?).
    + split; [done|]. by intros (? & ? & ?).
  - destruct state as [c [p|]]; simpl.
    + split; eauto.
    + split; [done|]. by intros [? ?].
  - intros effects input outcome w Hstatic Hfresh next. subst next.
    rewrite dispatch_reduced, reducer_settle_success by done.
    simpl. by rewrite Hstatic.
Qed.

End FlagBag.

Lemma flagBag_settled_fetching_witness :
  let awaiting :=
    {| current := None;
       pending := Some {| pending_input := Scenario.inputStatic;
                          pending_cachedOutcome := None |} |} in
  let next :=
    (dispatch (awaiting, [fetch Scenario.inputStatic])
       (settle_success Scenario.inputStatic Scenario.outcomeB) Scenario.world0).1.1.1 in
  current next = Some (Resolved Scenario.inputStatic Scenario.outcomeB) ∧
  bag_settled (flagBag next (config_defaultFlags Scenario.config)) = false.
Proof.
  apply (flagBag_settled_fetching
           {| current := None;
              pending := Some {| pending_input := Scenario.inputStatic;
                                 pending_cachedOutcome := None |} |}
           (config_defaultFlags Scenario.config)).
  - reflexivity.
  - vm_compute. reflexivity.
Defined.

(** ** [current] is never cleared *)

Lemma dispatch_current (tuple : Tuple) (action : Action) (w : World) :
  let next := (dispatch tuple action w).1.1 in
  match action with
  | evaluate input =>
      current next.1 = current tuple.1 ∧
      pending_input <$> pending next.1 = Some input
  | revalidate =>
      current next.1 = current tuple.1 ∧
      (is_Some (current tuple.1) → is_Some (pending next.1))
  | settle_success input outcome =>
      next = tuple ∨ current next.1 = Some (Resolved input outcome)
  | settle_failure input error =>
      next = tuple ∨ ∃ cachedOutcome, current next.1 = Some (Failed input error cachedOutcome)
  end.
Proof.
  destruct tuple as [[c p] effects], action as [input| |input outcome|input error];
    unfold_reducer.
  - done.
  - destruct p as [p|]; simpl; [|destruct c as [c|]; simpl]; split; try done; eauto.
  - destruct (deepEqual (Some input) (pending_input <$> p)); simpl;
      [destruct (outcome_visitorKey outcome) as [k|]; [destruct (truthy k)|]|]; eauto.
  - destruct (deepEqual (Some input) (pending_input <$> p)); simpl; eauto.
Qed.

Lemma dispatch_keeps_current (tuple : Tuple) (action : Action) (w : World) :
  is_Some (current tuple.1) → is_Some (current (dispatch tuple action w).1.1.1).
Proof.
  intros Hc. pose proof (dispatch_current tuple action w) as H. simpl in H.
  destruct action as [input| |input outcome|input error].
  - by destruct H as [-> _].
  - by destruct H as [-> _].
  - destruct H as [-> | ->]; eauto.
  - destruct H as [-> | [? ->]]; eauto.
Qed.

Lemma dispatch_all_cons (tuple : Tuple) (action : Action) (actions : list Action)
    (w : World) :
  dispatch_all tuple (action :: actions) w =
    let r := dispatch tuple action w in
    let r' := dispatch_all r.1.1 actions r.2 in
    ((r'.1.1, r.1.2 ++ r'.1.2), r'.2).
Proof.
  simpl. unfold mbind, M_bind, mret, M_ret.
  destruct (dispatch tuple action w) as [[t e] w']. simpl.
  by destruct (dispatch_all t actions w') as [[t' e'] w''].
Qed.

(** C10: no action sets [current] from non-null back to null.  A single
    evaluate or revalidate keeps [current] as it is while it sets [pending];
    a single settle/success or settle/failure either hands back the tuple it
    was given or makes [current] the new settled value.  Over any sequence of
    actions a non-null [current] stays non-null, and over a sequence without
    settle actions [current], and with it the flags shown, stay what they
    were. *)
Theorem current_is_never_cleared (tuple : Tuple) (action : Action)
    (actions : list Action) (defaultFlags : Flags) (w : World) :
  let next := (dispatch tuple action w).1.1 in
  let final := (dispatch_all tuple actions w).1.1 in
  (is_Some (current tuple.1) → is_Some (current next.1)) ∧
  match action with
  | evaluate input =>
      current next.1 = current tuple.1 ∧
      pending_input <$> pending next.1 = Some input
  | revalidate =>
      current next.1 = current tuple.1 ∧
      (is_Some (current tuple.1) → is_Some (pending next.1))
  | settle_success input outcome =>
      next = tuple ∨ current next.1 = Some (Resolved input outcome)
  | settle_failure input error =>
      next = tuple ∨ ∃ cachedOutcome, current next.1 = Some (Failed input error cachedOutcome)
  end ∧
  (is_Some (current tuple.1) → is_Some (current final.1)) ∧
  (Forall (λ a, settles a = false) actions →
     current final.1 = current tuple.1 ∧
     bag_rawFlags (flagBag final.1 defaultFlags)
       = bag_rawFlags (flagBag tuple.1 defaultFlags) ∧
     bag_flags (flagBag final.1 defaultFlags)
       = bag_flags (flagBag tuple.1 defaultFlags)).
Proof.
  intros next final. subst next final.
  split; [apply dispatch_keeps_current|].
  split; [apply dispatch_current|].
  split.
  - revert tuple w. induction actions as [|a actions' IH]; intros tuple w Hc; [done|].
    rewrite dispatch_all_cons. simpl. apply IH. by apply dispatch_keeps_current.
  - intros Hquiet.
    assert (current (dispatch_all tuple actions w).1.1.1 = current tuple.1) as Hsame.
    { revert tuple w.
      induction Hquiet as [|a actions' Ha _ IH]; intros tuple w; [done|].
      rewrite dispatch_all_cons. simpl. rewrite IH.
      pose proof (dispatch_current tuple a w) as H. simpl in H.
      destruct a; try discriminate; by destruct H. }
    split; [done|].
    unfold flagBag, settled_outcome. simpl. by rewrite Hsame.
Qed.

Lemma current_is_never_cleared_witness :
  let shown := ({| current := Some (Resolved Scenario.inputA Scenario.outcomeA);
                   pending := None |}, []) in
  let final :=
    (dispatch_all shown [revalidate; evaluate Scenario.inputB; revalidate]
       Scenario.world0).1.1 in
  current final.1 = Some (Resolved Scenario.inputA Scenario.outcomeA) ∧
  bag_rawFlags (flagBag final.1 (config_defaultFlags Scenario.config))
    = Some (flags (responseBody Scenario.outcomeA)) ∧
  bag_flags (flagBag final.1 (config_defaultFlags Scenario.config))
    = Some (flags (responseBody Scenario.outcomeA) ∪ config_defaultFlags Scenario.config).
Proof.
  apply (current_is_never_cleared
           ({| current := Some (Resolved Scenario.inputA Scenario.outcomeA);
               pending := None |}, [])
           revalidate [revalidate; evaluate Scenario.inputB; revalidate]
           (config_defaultFlags Scenario.config) Scenario.world0).
  repeat constructor.
Defined.

(** ** The effect runner *)

(** Every fetch effect ends in exactly one dispatch, a settle action for the
    effect's input. *)
Lemma runEffect_dispatches_once (fetched : Promise Response) (input : Input) :
  ∃ action, runEffect fetched (fetch input) = [action] ∧
            settled_input action = Some input.
Proof.
  destruct fetched as [[o [b|]]|]; [destruct o| |]; simpl; eauto.
Qed.

(** With a body that parses the runner does what the spec says. *)
Lemma runEffect_parsed (o : bool) (responseBody : EvaluationResponseBody) (input : Input) :
  let fetched := Fulfilled {| ok := o; json := Fulfilled responseBody |} in
  runEffect fetched (fetch input) = [settle_by_the_spec fetched input].
Proof. by destruct o. Qed.

(** C3: the runner dispatches one settle action per effect, but the two
    failure kinds are exchanged.  The rejection handler given to [then] is the
    one that runs when [fetch] itself rejects, and it dispatches
    invalid-response-body; a body that fails to parse rejects inside the
    fulfilment handler, which only [catch] sees, and that dispatches
    network-error, whatever the status was. *)
Theorem runEffect_exchanges_failure_kinds (input : Input) (o : bool) :
  runEffect Rejected (fetch input) = [settle_failure input invalid_response_body] ∧
  settle_by_the_spec Rejected input = settle_failure input network_error ∧
  runEffect (Fulfilled {| ok := o; json := Rejected |}) (fetch input)
    = [settle_failure input network_error] ∧
  settle_by_the_spec (Fulfilled {| ok := true; json := Rejected |}) input
    = settle_failure input invalid_response_body ∧
  settle_by_the_spec (Fulfilled {| ok := false; json := Rejected |}) input
    = settle_failure input response_not_ok.
Proof. done. Qed.

(** ** The readiness gate *)

(** C4, as the claim states it, fails: with [ready] false the handle of the
    flag bag still dispatches revalidate, and the reducer answers it with a
    fetch for the current input. *)
Lemma revalidate_handle_ignores_ready :
  let options := Scenario.options_of (Some false) in
  let shown := {| current := Some (Resolved Scenario.inputA Scenario.outcomeA);
                  pending := None |} in
  options_ready options = Some false ∧
  dispatched Scenario.config options "generated" shown Scenario.world0 RevalidateCalled
    = [revalidate] ∧
  bag_revalidate (flagBag shown (config_defaultFlags Scenario.config)) = [revalidate] ∧
  (dispatch (shown, []) revalidate Scenario.world0).1.2 = [fetch Scenario.inputA].
Proof. vm_compute. done. Qed.

(** C4, amended: while [ready] is false the mount effect dispatches no
    evaluate for a new input and the focus handler dispatches no revalidate,
    so nothing is dispatched on a render or on a visibility change (the handle
    of the flag bag is outside the gate); an undefined [ready] counts as
    true. *)
Theorem ready_gate (config : Config) (options : UseFlagsOptions)
    (generatedVisitorKey : string) (state : State) (w : World) (t : Trigger) :
  (options_ready options = Some false →
   t ≠ RevalidateCalled →
   dispatched config options generatedVisitorKey state w t = []) ∧
  isReady None = true ∧
  (options_ready options = None →
   dispatched config options generatedVisitorKey state w t
     = dispatched config (with_ready options (Some true)) generatedVisitorKey state w t).
Proof.
  split; [|split; [done|]].
  - intros Hready Ht.
    destruct t as [|v|]; [| |done]; unfold dispatched, mountEffect, handleFocus; simpl;
      rewrite Hready; simpl.
    + by rewrite andb_false_r.
    + destruct (shouldRevalidateOnFocus config options), v; done.
  - intros Hready.
    destruct t as [|v|]; [| |done];
      unfold dispatched, mountEffect, handleFocus, currentInput, shouldRevalidateOnFocus;
      simpl; by rewrite Hready.
Qed.

Lemma ready_gate_witness :
  let options := Scenario.options_of (Some false) in
  dispatched Scenario.config options "generated" Scenario.idle Scenario.world0 Rendered
    = [] ∧
  dispatched Scenario.config options "generated" Scenario.idle Scenario.world0
    (VisibilityChange visible) = [].
Proof.
  split.
  - apply (ready_gate Scenario.config (Scenario.options_of (Some false)) "generated"
             Scenario.idle Scenario.world0 Rendered); [reflexivity | discriminate].
  - apply (ready_gate Scenario.config (Scenario.options_of (Some false)) "generated"
             Scenario.idle Scenario.world0 (VisibilityChange visible));
      [reflexivity | discriminate].
Defined.

(** ** The reducer and the runner together *)

(** The service answers the evaluation of an input with the flags
    [{ x: true }]: they are the flags shown, nothing is being fetched and the
    state is settled. *)
Example scenario_evaluate_and_settle :
  let served :=
    Fulfilled {| ok := true; json := Fulfilled (responseBody Scenario.outcomeA) |} in
  let r := dispatch (initialTuple None) (evaluate Scenario.inputA) Scenario.world0 in
  let r' := dispatch_all r.1.1 (flat_map (runEffect served) r.1.2) r.2 in
  let bag := flagBag r'.1.1.1 ∅ in
  bag_flags bag = Some {[ "x"%string := FBool true ]} ∧
  bag_fetching bag = false ∧
  bag_settled bag = true.
Proof. vm_compute. done. Qed.

(** Two evaluations in a row, for inputs that differ in their traits only; the
    first response arrives after the second request was issued and is
    dropped, the second response is the one shown. *)
Example scenario_first_response_is_dropped :
  let servedA :=
    Fulfilled {| ok := true; json := Fulfilled (responseBody Scenario.outcomeA) |} in
  let servedB :=
    Fulfilled {| ok := true; json := Fulfilled (responseBody Scenario.outcomeB) |} in
  let r := dispatch_all (initialTuple None)
             [evaluate Scenario.inputA; evaluate Scenario.inputB] Scenario.world0 in
  let late := dispatch_all r.1.1 (runEffect servedA (fetch Scenario.inputA)) r.2 in
  let last := dispatch_all late.1.1 (runEffect servedB (fetch Scenario.inputB)) late.2 in
  r.1.2 = [fetch Scenario.inputA; fetch Scenario.inputB] ∧
  late = (r.1.1, [], r.2) ∧
  current last.1.1.1 = Some (Resolved Scenario.inputB Scenario.outcomeB) ∧
  pending last.1.1.1 = None.
Proof. vm_compute. done. Qed.

(** * Further properties of the hook *)

(** ** Which inputs are new *)

Lemma isEmergingInput_pending (input : Input) (state : State) (p : Pending) :
  pending state = Some p →
  isEmergingInput input state = negb (deepEqual (Some (pending_input p)) (Some input)).
Proof.
  intros Hp. unfold isEmergingInput. rewrite Hp.
  by destruct (deepEqual (Some (pending_input p)) (Some input)).
Qed.

Lemma isEmergingInput_current (input : Input) (state : State) (c : Current) :
  pending state = None →
  current state = Some c →
  isEmergingInput input state = negb (deepEqual (Some (current_input c)) (Some input)).
Proof.
  intros Hp Hc. unfold isEmergingInput. rewrite Hp, Hc.
  by destruct (deepEqual (Some (current_input c)) (Some input)).
Qed.

Lemma negb_deepEqual_false (a b : Input) :
  negb (deepEqual (Some a) (Some b)) = false ↔ b = a.
Proof.
  rewrite negb_false_iff, deepEqual_true. split; [by intros [= ->]|by intros ->].
Qed.

(** X1: [isEmergingInput] follows the latest request.  After evaluate(input),
    whatever [current] holds, the inputs that are not new are exactly the ones
    equal to [input]; and once the pending request for [input] has settled,
    with success or with failure, that is still so. *)
Theorem emerging_inputs_follow_latest_request (state : State) (effects : list Effect)
    (input input' : Input) (outcome : Outcome) (error : ResolvingError) (w : World) :
  (isEmergingInput input'
     (dispatch (state, effects) (evaluate input) w).1.1.1 = false ↔ input' = input) ∧
  (pending_input <$> pending state = Some input →
   (isEmergingInput input'
      (dispatch (state, effects) (settle_success input outcome) w).1.1.1 = false
      ↔ input' = input) ∧
   (isEmergingInput input'
      (dispatch (state, effects) (settle_failure input error) w).1.1.1 = false
      ↔ input' = input)).
Proof.
  split.
  - rewrite dispatch_reduced, reducer_evaluate. simpl.
    erewrite isEmergingInput_pending by done. apply negb_deepEqual_false.
  - intros Hp.
    assert (deepEqual (Some input) (pending_input <$> pending (state, effects).1) = true)
      as Hfresh by (simpl; rewrite Hp; apply deepEqual_refl).
    rewrite !dispatch_reduced, reducer_settle_success, reducer_settle_failure by done.
    simpl. split.
    + erewrite isEmergingInput_current by done. apply negb_deepEqual_false.
    + erewrite isEmergingInput_current by done. apply negb_deepEqual_false.
Qed.

Lemma emerging_inputs_follow_latest_request_witness :
  isEmergingInput Scenario.inputA
    (dispatch (Scenario.awaitingB, [fetch Scenario.inputB])
       (settle_success Scenario.inputB Scenario.outcomeB) Scenario.world0).1.1.1 = true ∧
  isEmergingInput Scenario.inputB
    (dispatch (Scenario.awaitingB, [fetch Scenario.inputB])
       (settle_success Scenario.inputB Scenario.outcomeB) Scenario.world0).1.1.1 = false.
Proof.
  pose proof (emerging_inputs_follow_latest_request Scenario.awaitingB
                [fetch Scenario.inputB] Scenario.inputB Scenario.inputA
                Scenario.outcomeB network_error Scenario.world0) as [_ HA].
  pose proof (emerging_inputs_follow_latest_request Scenario.awaitingB
                [fetch Scenario.inputB] Scenario.inputB Scenario.inputB
                Scenario.outcomeB network_error Scenario.world0) as [_ HB].
  destruct (HA eq_refl) as [HA' _]. destruct (HB eq_refl) as [HB' _].
  split.
  - apply not_false_iff_true. intros H. apply HA' in H. vm_compute in H. discriminate H.
  - by apply HB'.
Defined.

(** ** The mount effect *)

Lemma or_else_Some_truthy (a b : option string) (s : string) :
  truthy s = true → a = Some s → or_else a b = Some s.
Proof. intros Hs ->. simpl. by rewrite Hs. Qed.

Lemma or_else_falsy (a b : option string) :
  (∀ s, a = Some s → truthy s = false) → or_else a b = b.
Proof.
  intros Ha. destruct a as [s|]; [|done]. simpl. by rewrite (Ha s).
Qed.

Lemma or_else_cases (a b : option string) :
  (∃ s, a = Some s ∧ truthy s = true ∧ or_else a b = Some s) ∨
  ((∀ s, a = Some s → truthy s = false) ∧ or_else a b = b).
Proof.
  destruct a as [s|]; simpl.
  - destruct (truthy s) eqn:Hs; [left; eauto|right]. split; [|done]. by intros ? [= <-].
  - right. split; [|done]. by intros ? [=].
Qed.

Lemma currentInput_inputWith (config : Config) (options : UseFlagsOptions)
    (generatedVisitorKey : string) (state : State) (w : World) :
  currentInput config options generatedVisitorKey state w
    = inputWith config options (resolveVisitorKey generatedVisitorKey state w).
Proof. done. Qed.

(** The key resolved with a readable, non-empty cookie is the cookie. *)
Lemma resolveVisitorKey_cookie (g : string) (state : State) (w : World) (k : string) :
  cookie w !! visitorKeyCookie = Some k → truthy k = true →
  resolveVisitorKey g state w = k.
Proof.
  intros Hc Hk. unfold resolveVisitorKey, getCookie.
  by rewrite (or_else_Some_truthy _ _ k).
Qed.

(** Making the resolved key the pending request's key does not change what is
    resolved next. *)
Lemma resolveVisitorKey_stable (g : string) (state : State) (w : World)
    (input : Input) (cachedOutcome : option Outcome) :
  input_visitorKey input = resolveVisitorKey g state w →
  resolveVisitorKey g
    {| current := current state;
       pending := Some {| pending_input := input;
                          pending_cachedOutcome := cachedOutcome |} |} w
    = resolveVisitorKey g state w.
Proof.
  intros Hkey. unfold resolveVisitorKey in *. simpl. unfold settled_outcome in *. simpl.
  set (server := or_else ((current state ≫= current_outcome) ≫= outcome_visitorKey) None)
    in *.
  destruct (or_else_cases (getCookie (cookie w) visitorKeyCookie)
              (or_else (input_visitorKey ∘ pending_input <$> pending state) server))
    as [(c & Hc & Hct & Hold)|[Hc Hold]].
  - by rewrite !(or_else_Some_truthy _ _ c).
  - rewrite Hold in Hkey. rewrite Hold. rewrite (or_else_falsy _ _ Hc).
    simpl. rewrite Hkey.
    destruct (or_else_cases (input_visitorKey ∘ pending_input <$> pending state) server)
      as [(k & Hk & Hkt & Hp)|[Hk Hp]]; rewrite Hp; simpl.
    + by rewrite Hkt.
    + destruct (truthy (default g server)) eqn:Ht; [done|].
      done.
Qed.

(** X2: the mount effect dispatches at most one action, and only an evaluate,
    for an input that is never static, addresses the configured endpoint and
    environment and carries the options' user and traits; the visitor key of
    that input is not empty as long as the generated key is not. *)
Theorem mountEffect_evaluates_fresh_input (config : Config) (options : UseFlagsOptions)
    (generatedVisitorKey : string) (state : State) (w : World) :
  truthy generatedVisitorKey = true →
  ∃ input,
    ((mountEffect config options generatedVisitorKey state w).1 = [] ∨
     (mountEffect config options generatedVisitorKey state w).1 = [evaluate input] ∧
     isEmergingInput input state = true ∧
     isReady (options_ready options) = true) ∧
    static (requestBody input) = false ∧
    endpoint input = config_endpoint config ∧
    envKey input = config_envKey config ∧
    user (requestBody input) = options_user options ∧
    traits (requestBody input) = options_traits options ∧
    truthy (input_visitorKey input) = true.
Proof.
  intros Hg. exists (currentInput config options generatedVisitorKey state w).
  split.
  - unfold mountEffect. simpl.
    destruct (isEmergingInput _ state) eqn:He, (isReady (options_ready options)) eqn:Hr;
      simpl; eauto.
  - do 5 (split; [done|]).
    unfold input_visitorKey, currentInput, resolveVisitorKey. simpl.
    set (server := or_else (settled_outcome state ≫= outcome_visitorKey) None).
    destruct (or_else_cases (getCookie (cookie w) visitorKeyCookie)
                (or_else (input_visitorKey ∘ pending_input <$> pending state) server))
      as [(c & _ & Hct & ->)|[_ ->]]; [done|].
    destruct (or_else_cases (input_visitorKey ∘ pending_input <$> pending state) server)
      as [(k & _ & Hkt & ->)|[_ ->]]; [done|].
    subst server.
    destruct (or_else_cases (settled_outcome state ≫= outcome_visitorKey) None)
      as [(k & _ & Hkt & ->)|[_ ->]]; done.
Qed.

Lemma mountEffect_evaluates_fresh_input_witness :
  ∃ input,
    ((mountEffect Scenario.config (Scenario.options_of None) "generated"
        Scenario.idle Scenario.world0).1 = [] ∨
     (mountEffect Scenario.config (Scenario.options_of None) "generated"
        Scenario.idle Scenario.world0).1 = [evaluate input] ∧
     isEmergingInput input Scenario.idle = true ∧
     isReady (options_ready (Scenario.options_of None)) = true) ∧
    static (requestBody input) = false ∧
    endpoint input = config_endpoint Scenario.config ∧
    envKey input = config_envKey Scenario.config ∧
    user (requestBody input) = options_user (Scenario.options_of None) ∧
    traits (requestBody input) = options_traits (Scenario.options_of None) ∧
    truthy (input_visitorKey input) = true.
Proof.
  apply (mountEffect_evaluates_fresh_input Scenario.config (Scenario.options_of None)
           "generated" Scenario.idle Scenario.world0).
  reflexivity.
Defined.

(** X3: the mount effect does not answer its own evaluate.  Once the input it
    builds has been dispatched as evaluate, the world is untouched, one fetch
    for that input is emitted, and the effect, run again on the new state,
    dispatches nothing: the key it resolves is the one it resolved before. *)
Theorem mountEffect_quiet_after_its_evaluate (config : Config) (options : UseFlagsOptions)
    (generatedVisitorKey : string) (state : State) (effects : list Effect) (w : World) :
  let input := currentInput config options generatedVisitorKey state w in
  let r := dispatch (state, effects) (evaluate input) w in
  r.2 = w ∧
  r.1.2 = [fetch input] ∧
  currentInput config options generatedVisitorKey r.1.1.1 r.2 = input ∧
  (mountEffect config options generatedVisitorKey r.1.1.1 r.2).1 = [].
Proof.
  intros input r. subst r. rewrite dispatch_reduced, reducer_evaluate. simpl.
  do 2 (split; [done|]).
  assert (currentInput config options generatedVisitorKey
            {| current := current state;
               pending := Some {| pending_input := input;
                                  pending_cachedOutcome := ObjectMap.get (cache w) input |} |}
            w = input) as Hsame.
  { subst input. rewrite !currentInput_inputWith. f_equal.
    by apply resolveVisitorKey_stable. }
  split; [done|].
  unfold mountEffect. simpl. rewrite Hsame.
  erewrite isEmergingInput_pending by done. simpl. by rewrite deepEqual_refl.
Qed.

Lemma mountEffect_current (config : Config) (options : UseFlagsOptions) (g : string)
    (state : State) (w : World) (c : Current) (k : string) :
  pending state = None →
  current state = Some c →
  current_input c = inputWith config options k →
  (mountEffect config options g state w).1 =
    if decide (resolveVisitorKey g state w = k) then []
    else if isReady (options_ready options)
         then [evaluate (inputWith config options (resolveVisitorKey g state w))]
         else [].
Proof.
  intros Hp Hc Hi. unfold mountEffect. simpl.
  rewrite currentInput_inputWith. erewrite isEmergingInput_current by done.
  rewrite Hi. case_decide as Hk.
  - rewrite Hk, deepEqual_refl. done.
  - assert (deepEqual (Some (inputWith config options k))
              (Some (inputWith config options (resolveVisitorKey g state w))) = false)
      as ->; [|done].
    apply deepEqual_false. intros [= Heq]. by apply Hk.
Qed.

Lemma resolveVisitorKey_settled (g : string) (state : State) (w : World) :
  pending state = None →
  (∀ c, cookie w !! visitorKeyCookie = Some c → truthy c = false) →
  resolveVisitorKey g state w
    = default g (or_else (settled_outcome state ≫= outcome_visitorKey) None).
Proof.
  intros Hp Hc. unfold resolveVisitorKey, getCookie. rewrite Hp. simpl.
  by rewrite (or_else_falsy _ _ Hc).
Qed.

(** X4: when the response to the pending request names the visitor key the
    request was sent with, or names none while the cookie holds that key, the
    mount effect dispatches nothing after the settle/success: no second
    request follows a settled one. *)
Theorem mountEffect_quiet_after_settle_success (config : Config)
    (options : UseFlagsOptions) (g : string) (state : State) (effects : list Effect)
    (w : World) (k : string) (outcome : Outcome) :
  pending_input <$> pending state = Some (inputWith config options k) →
  truthy k = true →
  outcome_visitorKey outcome = Some k ∨
    (cookie w !! visitorKeyCookie = Some k ∧
     ∀ k', outcome_visitorKey outcome = Some k' → truthy k' = false) →
  let r := dispatch (state, effects) (settle_success (inputWith config options k) outcome) w in
  current r.1.1.1 = Some (Resolved (inputWith config options k) outcome) ∧
  (mountEffect config options g r.1.1.1 r.2).1 = [].
Proof.
  intros Hp Hk Hkey r. subst r.
  rewrite dispatch_reduced, reducer_settle_success
    by (simpl; rewrite Hp; apply deepEqual_refl).
  cbn [fst snd]. split; [done|].
  erewrite mountEffect_current by done.
  rewrite decide_True; [done|].
  apply resolveVisitorKey_cookie; [|done]. cbn [cookie].
  destruct Hkey as [-> | [Hc Hnone]].
  - rewrite Hk. apply lookup_insert_eq.
  - destruct (outcome_visitorKey outcome) as [k'|]; [|done].
    by rewrite (Hnone k').
Qed.

Lemma mountEffect_quiet_after_settle_success_witness :
  let r := dispatch (Scenario.awaitingB, [fetch Scenario.inputB])
             (settle_success Scenario.inputB Scenario.outcomeA) Scenario.world0 in
  current r.1.1.1 = Some (Resolved Scenario.inputB Scenario.outcomeA) ∧
  (mountEffect Scenario.config
     {| options_user := None;
        options_traits := Some {[ "employee"%string := SBool false ]};
        options_initialState := None;
        options_revalidateOnFocus := None;
        options_ready := None |}
     "generated" r.1.1.1 r.2).1 = [].
Proof.
  apply (mountEffect_quiet_after_settle_success Scenario.config
           {| options_user := None;
              options_traits := Some {[ "employee"%string := SBool false ]};
              options_initialState := None;
              options_revalidateOnFocus := None;
              options_ready := None |}
           "generated" Scenario.awaitingB [fetch Scenario.inputB] Scenario.world0
           "v1" Scenario.outcomeA).
  - reflexivity.
  - reflexivity.
  - left. reflexivity.
Defined.

(** X5: when the response names a non-empty visitor key other than the one
    the request was sent with, the key goes to the cookie and a ready hook
    evaluates again, for the same user and traits under the server's key. *)
Theorem mountEffect_adopts_server_key (config : Config) (options : UseFlagsOptions)
    (g : string) (state : State) (effects : list Effect) (w : World)
    (k k' : string) (outcome : Outcome) :
  pending_input <$> pending state = Some (inputWith config options k) →
  outcome_visitorKey outcome = Some k' →
  truthy k' = true →
  k' ≠ k →
  isReady (options_ready options) = true →
  let r := dispatch (state, effects) (settle_success (inputWith config options k) outcome) w in
  cookie r.2 !! visitorKeyCookie = Some k' ∧
  (mountEffect config options g r.1.1.1 r.2).1 = [evaluate (inputWith config options k')].
Proof.
  intros Hp Hkey Hk' Hne Hready r. subst r.
  rewrite dispatch_reduced, reducer_settle_success
    by (simpl; rewrite Hp; apply deepEqual_refl).
  cbn [fst snd cookie]. rewrite Hkey, Hk'.
  split; [apply lookup_insert_eq|].
  erewrite mountEffect_current by done.
  rewrite (resolveVisitorKey_cookie _ _ _ k') by (try done; apply lookup_insert_eq).
  rewrite decide_False by done. by rewrite Hready.
Qed.

Lemma mountEffect_adopts_server_key_witness :
  let options :=
    {| options_user := None;
       options_traits := Some {[ "employee"%string := SBool false ]};
       options_initialState := None;
       options_revalidateOnFocus := None;
       options_ready := None |} in
  let r := dispatch (Scenario.awaitingB, [fetch Scenario.inputB])
             (settle_success Scenario.inputB
                (Scenario.outcome_of ∅ (Some "v2"%string))) Scenario.world0 in
  cookie r.2 !! visitorKeyCookie = Some "v2"%string ∧
  (mountEffect Scenario.config options "generated" r.1.1.1 r.2).1
    = [evaluate (inputWith Scenario.config options "v2")].
Proof.
  apply (mountEffect_adopts_server_key Scenario.config
           {| options_user := None;
              options_traits := Some {[ "employee"%string := SBool false ]};
              options_initialState := None;
              options_revalidateOnFocus := None;
              options_ready := None |}
           "generated" Scenario.awaitingB [fetch Scenario.inputB] Scenario.world0
           "v1" "v2" (Scenario.outcome_of ∅ (Some "v2"%string))).
  - reflexivity.
  - reflexivity.
  - reflexivity.
  - discriminate.
  - reflexivity.
Defined.

(** X6: with nothing pending, a ready hook whose current entry is absent or
    belongs to a static input always evaluates on mount: its own input is not
    static, so it is new. *)
Theorem mountEffect_evaluates_over_static (config : Config) (options : UseFlagsOptions)
    (g : string) (state : State) (w : World) :
  pending state = None →
  (∀ c, current state = Some c → static (requestBody (current_input c)) = true) →
  isReady (options_ready options) = true →
  (mountEffect config options g state w).1
    = [evaluate (currentInput config options g state w)].
Proof.
  intros Hp Hstatic Hready. unfold mountEffect. cbn [fst]. rewrite Hready.
  assert (isEmergingInput (currentInput config options g state w) state = true) as ->;
    [|done].
  destruct (current state) as [c|] eqn:Hc.
  - erewrite isEmergingInput_current by done. apply negb_true_iff, deepEqual_false.
    intros [= Heq]. specialize (Hstatic c eq_refl). rewrite Heq in Hstatic. done.
  - unfold isEmergingInput. by rewrite Hp, Hc.
Qed.

Lemma mountEffect_evaluates_over_static_witness :
  let state := (initialTuple
                  (Some (InitialOutcome Scenario.inputStatic Scenario.outcomeB))).1 in
  (mountEffect Scenario.config (Scenario.options_of None) "generated" state
     Scenario.world0).1
    = [evaluate (currentInput Scenario.config (Scenario.options_of None) "generated"
                   state Scenario.world0)].
Proof.
  apply (mountEffect_evaluates_over_static Scenario.config (Scenario.options_of None)
           "generated"
           (initialTuple (Some (InitialOutcome Scenario.inputStatic Scenario.outcomeB))).1
           Scenario.world0).
  - reflexivity.
  - intros c [= <-]. reflexivity.
  - reflexivity.
Defined.

(** X7: a server-rendered initial state is taken over without a request.  When
    the initial outcome belongs to the input the hook builds, under the key of
    the visitor cookie or, with no readable cookie, the key the outcome names,
    the first tuple shows its flags, is settled and not fetching, and the
    mount effect dispatches nothing. *)
Theorem initial_state_is_not_refetched (config : Config) (options : UseFlagsOptions)
    (g : string) (w : World) (k : string) (outcome : Outcome) :
  truthy k = true →
  cookie w !! visitorKeyCookie = Some k ∨
    ((∀ c, cookie w !! visitorKeyCookie = Some c → truthy c = false) ∧
     outcome_visitorKey outcome = Some k) →
  let tuple := initialTuple (Some (InitialOutcome (inputWith config options k) outcome)) in
  let bag := flagBag tuple.1 (config_defaultFlags config) in
  tuple.2 = [] ∧
  (mountEffect config options g tuple.1 w).1 = [] ∧
  bag_rawFlags bag = Some (flags (responseBody outcome)) ∧
  bag_fetching bag = false ∧
  bag_settled bag = true.
Proof.
  intros Hk Hkey tuple bag. subst bag tuple. cbn [initialTuple fst snd].
  split; [done|]. split; [|done].
  erewrite mountEffect_current by done.
  rewrite decide_True; [done|].
  destruct Hkey as [Hc | [Hc Ho]].
  - by apply resolveVisitorKey_cookie.
  - rewrite resolveVisitorKey_settled by done.
    unfold settled_outcome. cbn. rewrite Ho. cbn. by rewrite Hk.
Qed.

Lemma initial_state_is_not_refetched_witness :
  let options :=
    {| options_user := None;
       options_traits := Some {[ "employee"%string := SBool true ]};
       options_initialState := Some (InitialOutcome Scenario.inputA Scenario.outcomeA);
       options_revalidateOnFocus := None;
       options_ready := None |} in
  let tuple := initialTuple (options_initialState options) in
  let bag := flagBag tuple.1 (config_defaultFlags Scenario.config) in
  tuple.2 = [] ∧
  (mountEffect Scenario.config options "generated" tuple.1 Scenario.world0).1 = [] ∧
  bag_rawFlags bag = Some (flags (responseBody Scenario.outcomeA)) ∧
  bag_fetching bag = false ∧
  bag_settled bag = true.
Proof.
  apply (initial_state_is_not_refetched Scenario.config
           {| options_user := None;
              options_traits := Some {[ "employee"%string := SBool true ]};
              options_initialState := Some (InitialOutcome Scenario.inputA Scenario.outcomeA);
              options_revalidateOnFocus := None;
              options_ready := None |}
           "generated" Scenario.world0 "v1" Scenario.outcomeA).
  - reflexivity.
  - right. split; [|reflexivity]. intros c Hc. vm_compute in Hc. discriminate Hc.
Defined.

(** X8: a failed request is not retried by the mount effect.  When the request
    that fails was sent under the key of the visitor cookie or, with no
    readable cookie, under the generated key, the settle/failure leaves the
    world untouched and the mount effect dispatches nothing afterwards. *)
Theorem mountEffect_quiet_after_settle_failure (config : Config)
    (options : UseFlagsOptions) (g : string) (state : State) (effects : list Effect)
    (w : World) (k : string) (error : ResolvingError) :
  pending_input <$> pending state = Some (inputWith config options k) →
  (cookie w !! visitorKeyCookie = Some k ∧ truthy k = true) ∨
    ((∀ c, cookie w !! visitorKeyCookie = Some c → truthy c = false) ∧ k = g) →
  let r := dispatch (state, effects) (settle_failure (inputWith config options k) error) w in
  r.2 = w ∧
  current_error <$> current r.1.1.1 = Some (Some error) ∧
  (mountEffect config options g r.1.1.1 r.2).1 = [].
Proof.
  intros Hp Hkey r. subst r.
  rewrite dispatch_reduced, reducer_settle_failure
    by (simpl; rewrite Hp; apply deepEqual_refl).
  cbn [fst snd]. do 2 (split; [done|]).
  erewrite mountEffect_current by done.
  rewrite decide_True; [done|].
  destruct Hkey as [[Hc Hk] | [Hc ->]].
  - by apply resolveVisitorKey_cookie.
  - by rewrite resolveVisitorKey_settled.
Qed.

Lemma mountEffect_quiet_after_settle_failure_witness :
  let options := Scenario.options_of None in
  let input := inputWith Scenario.config options "generated" in
  let state := {| current := None;
                  pending := Some {| pending_input := input;
                                     pending_cachedOutcome := None |} |} in
  let r := dispatch (state, [fetch input]) (settle_failure input network_error)
             Scenario.world0 in
  r.2 = Scenario.world0 ∧
  current_error <$> current r.1.1.1 = Some (Some network_error) ∧
  (mountEffect Scenario.config options "generated" r.1.1.1 r.2).1 = [].
Proof.
  apply (mountEffect_quiet_after_settle_failure Scenario.config (Scenario.options_of None)
           "generated"
           {| current := None;
              pending :=
                Some {| pending_input :=
                          inputWith Scenario.config (Scenario.options_of None) "generated";
                        pending_cachedOutcome := None |} |}
           [fetch (inputWith Scenario.config (Scenario.options_of None) "generated")]
           Scenario.world0 "generated" network_error).
  - reflexivity.
  - right. split; [|reflexivity]. intros c Hc. vm_compute in Hc. discriminate Hc.
Defined.

(** ** What the reducer writes *)

Lemma ObjectMap_set_grows (m : ObjectMap.t) (k k' : Input) (v : Outcome) :
  is_Some (ObjectMap.get m k') → is_Some (ObjectMap.get (ObjectMap.set m k v) k').
Proof.
  intros Hsome. destruct (decide (k = k')) as [<-|Hne].
  - rewrite ObjectMap_get_set. eauto.
  - by rewrite ObjectMap_get_set_ne.
Qed.

(** X9: the reducer writes to the world in one place only.  Evaluate,
    revalidate and settle/failure leave the cache and the cookie jar as they
    are; a settle/success changes the cache at its own input at most, the
    cookie jar at the visitor cookie at most, and removes no cache entry. *)
Theorem reducer_writes_only_on_success (tuple : Tuple) (action : Action) (w : World) :
  let w' := (reducer tuple action w).2 in
  match action with
  | settle_success input outcome =>
      (∀ k, k ≠ input → ObjectMap.get (cache w') k = ObjectMap.get (cache w) k) ∧
      (∀ name, name ≠ visitorKeyCookie → cookie w' !! name = cookie w !! name) ∧
      cache_grows w w'
  | evaluate _ | revalidate | settle_failure _ _ => w' = w
  end.
Proof.
  destruct tuple as [[c p] effects], action as [input| |input outcome|input error];
    unfold_reducer.
  - done.
  - by destruct p as [p|]; [|destruct c as [c|]].
  - destruct (deepEqual (Some input) (pending_input <$> p)); simpl;
      [|by unfold cache_grows].
    destruct (outcome_visitorKey outcome) as [k|] eqn:Hk; [destruct (truthy k)|];
      simpl; (split; [intros k0 Hk0; by apply ObjectMap_get_set_ne|]);
      (split; [intros name Hname; simpl; by rewrite ?lookup_insert_ne|]);
      intros k0 Hk0; simpl; by apply ObjectMap_set_grows.
  - by destruct (deepEqual (Some input) (pending_input <$> p)).
Qed.

(** ** The runner and the reducer together *)

(** X10: the runner dispatches exactly one action per fetch effect, a settle
    action for the effect's own input, and it is a settle/success exactly when
    the fetch was answered with an ok response whose body parsed; the outcome
    then holds that body. *)
Theorem runEffect_settles_once (fetched : Promise Response) (input : Input) :
  (∃ action, runEffect fetched (fetch input) = [action] ∧
             settles action = true ∧
             settled_input action = Some input) ∧
  (∀ outcome,
     runEffect fetched (fetch input) = [settle_success input outcome] ↔
     fetched = Fulfilled {| ok := true; json := Fulfilled (responseBody outcome) |}).
Proof.
  split.
  - destruct fetched as [[o [b|]]|]; [destruct o| |]; simpl; eauto.
  - intros [body]. destruct fetched as [[o [b|]]|]; [destruct o| |]; simpl;
      split; intros [=]; by subst.
Qed.

(** X11: whatever becomes of the fetch for the pending input, running its
    effect ends the fetching: the one action the runner dispatches clears
    [pending], makes [current] an entry for that input, and emits nothing. *)
Theorem response_for_pending_ends_fetching (state : State) (effects : list Effect)
    (p : Pending) (fetched : Promise Response) (defaultFlags : Flags) (w : World) :
  pending state = Some p →
  let r := dispatch_all (state, effects)
             (runEffect fetched (fetch (pending_input p))) w in
  pending r.1.1.1 = None ∧
  current_input <$> current r.1.1.1 = Some (pending_input p) ∧
  bag_fetching (flagBag r.1.1.1 defaultFlags) = false ∧
  r.1.1.2 = [] ∧
  r.1.2 = [].
Proof.
  intros Hp r. subst r.
  assert (deepEqual (Some (pending_input p))
            (pending_input <$> pending (state, effects).1) = true) as Hfresh
    by (simpl; rewrite Hp; apply deepEqual_refl).
  destruct fetched as [[o [b|]]|]; [destruct o| |]; simpl runEffect;
    rewrite dispatch_all_cons; cbn zeta;
    rewrite dispatch_reduced, ?reducer_settle_success, ?reducer_settle_failure by done;
    done.
Qed.

Lemma response_for_pending_ends_fetching_witness :
  let r := dispatch_all (Scenario.awaitingB, [fetch Scenario.inputB])
             (runEffect Rejected (fetch Scenario.inputB)) Scenario.world0 in
  pending r.1.1.1 = None ∧
  current_input <$> current r.1.1.1 = Some Scenario.inputB ∧
  bag_fetching (flagBag r.1.1.1 ∅) = false ∧
  r.1.1.2 = [] ∧
  r.1.2 = [].
Proof.
  apply (response_for_pending_ends_fetching Scenario.awaitingB [fetch Scenario.inputB]
           {| pending_input := Scenario.inputB; pending_cachedOutcome := None |}
           Rejected ∅ Scenario.world0).
  reflexivity.
Defined.

(** ** Sequences of requests *)

Lemma dispatch_all_nil (tuple : Tuple) (w : World) :
  dispatch_all tuple [] w = ((tuple, []), w).
Proof. done. Qed.

Lemma dispatch_evaluate (tuple : Tuple) (input : Input) (w : World) :
  dispatch tuple (evaluate input) w =
    ((({| current := current tuple.1;
          pending := Some {| pending_input := input;
                             pending_cachedOutcome := ObjectMap.get (cache w) input |} |},
       [fetch input]), [fetch input]), w).
Proof. by rewrite dispatch_reduced, reducer_evaluate. Qed.

Lemma dispatch_all_two (tuple : Tuple) (a b : Action) (w : World) :
  dispatch_all tuple [a; b] w =
    ((dispatch (dispatch tuple a w).1.1 b (dispatch tuple a w).2).1.1,
     (dispatch tuple a w).1.2
       ++ (dispatch (dispatch tuple a w).1.1 b (dispatch tuple a w).2).1.2,
     (dispatch (dispatch tuple a w).1.1 b (dispatch tuple a w).2).2).
Proof.
  rewrite dispatch_all_cons. cbn zeta. rewrite dispatch_all_cons. cbn zeta.
  rewrite dispatch_all_nil. cbn [fst snd]. by rewrite app_nil_r.
Qed.

Lemma dispatch_revalidate_settled (tuple : Tuple) (c : Current) (w : World) :
  pending tuple.1 = None →
  current tuple.1 = Some c →
  dispatch tuple revalidate w =
    ((({| current := Some c;
          pending := Some {| pending_input := current_input c;
                             pending_cachedOutcome :=
                               ObjectMap.get (cache w) (current_input c) |} |},
       [fetch (current_input c)]), [fetch (current_input c)]), w).
Proof.
  intros Hp Hc. destruct tuple as [[c' p] effects]. simpl in *. subst.
  by unfold_reducer.
Qed.

(** X12: flags that were shown are withdrawn by a failed revalidation.  After
    evaluate and settle/success of an input its flags are the raw flags; when
    the revalidation that follows fails, [current] is the failure, with the
    earlier outcome kept as its cached outcome, and the flag bag has neither
    raw flags nor flags. *)
Theorem failed_revalidation_withdraws_flags (tuple : Tuple) (input : Input)
    (outcome : Outcome) (error : ResolvingError) (defaultFlags : Flags) (w : World) :
  let shown := dispatch_all tuple [evaluate input; settle_success input outcome] w in
  let failed := dispatch_all shown.1.1 [revalidate; settle_failure input error] shown.2 in
  bag_rawFlags (flagBag shown.1.1.1 defaultFlags) = Some (flags (responseBody outcome)) ∧
  current failed.1.1.1 = Some (Failed input error (Some outcome)) ∧
  pending failed.1.1.1 = None ∧
  bag_rawFlags (flagBag failed.1.1.1 defaultFlags) = None ∧
  bag_flags (flagBag failed.1.1.1 defaultFlags) = None ∧
  failed.1.2 = [fetch input].
Proof.
  intros shown failed. subst failed shown.
  fold (evaluated_then_settled tuple input input outcome w).
  rewrite evaluated_then_settled_eq by apply deepEqual_refl.
  cbn [fst snd]. rewrite dispatch_all_two.
  erewrite dispatch_revalidate_settled by done. cbn [fst snd current_input].
  rewrite dispatch_reduced, reducer_settle_failure by apply deepEqual_refl.
  cbn [fst snd cache current pending]. by rewrite ObjectMap_get_set.
Qed.


(** X14: revalidate is idempotent on the tuple.  Applied to the tuple a first
    revalidate leaves, the reducer returns what it returned the first time,
    the same tuple again or an equal new one, so the state and the effect
    array after two revalidates are those after one; neither touches the
    world. *)
Theorem revalidate_is_idempotent (tuple : Tuple) (w : World) :
  let once := reducer tuple revalidate w in
  let twice := reducer (next_tuple tuple once.1) revalidate once.2 in
  once.2 = w ∧
  twice = once ∧
  next_tuple (next_tuple tuple once.1) twice.1 = next_tuple tuple once.1.
Proof.
  destruct tuple as [[c p] effects].
  destruct p as [p|]; [|destruct c as [c|]];
    unfold reducer, mbind, mret, M_bind, M_ret, cache_get; simpl; done.
Qed.

(** ** An invariant of the tuple *)

Lemma dispatch_effects_match_pending (tuple : Tuple) (action : Action) (w : World) :
  effects_match_pending tuple →
  effects_match_pending (dispatch tuple action w).1.1.
Proof.
  intros Hinv. rewrite dispatch_reduced.
  destruct tuple as [[c p] effects], action as [input| |input outcome|input error];
    unfold reducer, mbind, mret, M_bind, M_ret, cache_get, cache_set; simpl.
  - done.
  - by destruct p as [p|]; [|destruct c as [c|]].
  - destruct (deepEqual (Some input) (pending_input <$> p)); simpl; [|done].
    by destruct (outcome_visitorKey outcome) as [k|]; [destruct (truthy k)|].
  - by destruct (deepEqual (Some input) (pending_input <$> p)).
Qed.

(** X15: from the first tuple on, whatever is dispatched, the effect array of
    the tuple is empty or holds exactly one fetch, the one for the pending
    input; in particular it is empty whenever nothing is pending, and no
    action leaves two effects to run. *)
Theorem effects_always_match_pending (initialState : option InitialFlagState)
    (actions : list Action) (w : World) :
  let r := dispatch_all (initialTuple initialState) actions w in
  effects_match_pending r.1.1 ∧
  (pending r.1.1.1 = None → r.1.1.2 = []) ∧
  length r.1.1.2 ≤ 1.
Proof.
  intros r.
  assert (effects_match_pending r.1.1) as Hinv.
  { subst r. assert (effects_match_pending (initialTuple initialState)) as H0 by done.
    revert H0. generalize (initialTuple initialState) as tuple. revert w.
    induction actions as [|a actions' IH]; intros w tuple H0; [done|].
    rewrite dispatch_all_cons. cbn zeta. cbn [fst snd]. apply IH.
    by apply dispatch_effects_match_pending. }
  split; [done|]. unfold effects_match_pending in Hinv.
  destruct (r.1.1.2) as [|[input] [|e l]]; simpl; [split; [done|lia]| |done].
  split; [|lia]. intros Hnone. by rewrite Hnone in Hinv.
Qed.

(** ** The initial state and the cache *)

(** X16: the effect that caches the initial state stores a successful,
    non-static initial outcome under its input and nothing else: a static or
    failed initial state, or none, leaves the world as it is; the cookie jar
    is never written, no entry is lost, other inputs keep their entries, and
    an evaluate of the initial input afterwards finds the outcome as its
    cached outcome. *)
Theorem cacheInitialState_caches_dynamic_outcome (initialState : option InitialFlagState)
    (tuple : Tuple) (w : World) :
  let w' := (cacheInitialState initialState w).2 in
  cookie w' = cookie w ∧
  cache_grows w w' ∧
  match initialState with
  | Some (InitialOutcome input outcome) =>
      if static (requestBody input) then w' = w
      else
        ObjectMap.get (cache w') input = Some outcome ∧
        (∀ k, k ≠ input → ObjectMap.get (cache w') k = ObjectMap.get (cache w) k) ∧
        pending_cachedOutcome <$> pending (dispatch tuple (evaluate input) w').1.1.1
          = Some (Some outcome)
  | Some (InitialError _ _) | None => w' = w
  end.
Proof.
  destruct initialState as [[input outcome|input error]|]; cbn [cacheInitialState];
    [|by unfold cache_grows..].
  destruct (static (requestBody input)); cbn [negb]; [by unfold cache_grows|].
  unfold cache_set. cbn [snd cookie cache].
  split; [done|]. split; [intros k Hk; by apply ObjectMap_set_grows|].
  split; [apply ObjectMap_get_set|].
  split; [intros k Hk; by apply ObjectMap_get_set_ne|].
  rewrite dispatch_evaluate. cbn [fst snd pending cache fmap option_fmap option_map
    pending_cachedOutcome].
  by rewrite ObjectMap_get_set.
Qed.

(** ** Revalidation on focus *)

(** X17: a visibility change dispatches one revalidate when the document
    became visible, [ready] is not false and revalidation on focus is on,
    which the option decides and the configuration only when the option is
    undefined; in every other case it dispatches nothing. *)
Theorem visibility_change_revalidates (config : Config) (options : UseFlagsOptions)
    (g : string) (state : State) (w : World) (v : VisibilityState) :
  let on :=
    match options_revalidateOnFocus options with
    | Some revalidateOnFocus => revalidateOnFocus
    | None => config_revalidateOnFocus config
    end in
  let ready :=
    match options_ready options with
    | Some false => false
    | Some true | None => true
    end in
  dispatched config options g state w (VisibilityChange v) =
    match v with
    | visible => if on && ready then [revalidate] else []
    | hidden => []
    end.
Proof.
  unfold dispatched, mountEffect, handleFocus, shouldRevalidateOnFocus, isReady. simpl.
  destruct (options_revalidateOnFocus options) as [[]|],
    (config_revalidateOnFocus config), (options_ready options) as [[]|], v; done.
Qed.

(** ** The visitor key of the flag bag *)

(** X18: the visitor key of the flag bag is never the empty string; it is the
    key the current outcome names when that is not empty, and it is null only
    when neither the current outcome nor the current input nor the pending
    input has a non-empty key.  After a settle/success that names a non-empty
    key, the flag bag reports the key that went to the cookie. *)
Theorem flagBag_visitorKey (state : State) (defaultFlags : Flags) :
  let reported := bag_visitorKey (flagBag state defaultFlags) in
  (∀ k, reported = Some k → truthy k = true) ∧
  (∀ k, settled_outcome state ≫= outcome_visitorKey = Some k →
        truthy k = true → reported = Some k) ∧
  (reported = None ↔
     (∀ k, settled_outcome state ≫= outcome_visitorKey = Some k → truthy k = false) ∧
     (∀ c, current state = Some c → truthy (input_visitorKey (current_input c)) = false) ∧
     (∀ p, pending state = Some p → truthy (input_visitorKey (pending_input p)) = false)) ∧
  (∀ effects input outcome w k,
     deepEqual (Some input) (pending_input <$> pending state) = true →
     outcome_visitorKey outcome = Some k →
     truthy k = true →
     let r := dispatch (state, effects) (settle_success input outcome) w in
     bag_visitorKey (flagBag r.1.1.1 defaultFlags) = Some k ∧
     cookie r.2 !! visitorKeyCookie = Some k).
Proof.
  intros reported. subst reported. unfold flagBag. cbn [bag_visitorKey].
  set (server := settled_outcome state ≫= outcome_visitorKey).
  set (ofCurrent := input_visitorKey ∘ current_input <$> current state).
  set (ofPending := input_visitorKey ∘ pending_input <$> pending state).
  split; [|split; [|split]].
  - intros k.
    destruct (or_else_cases server (or_else ofCurrent (or_else ofPending None)))
      as [(s & _ & Hs & ->)|[_ ->]]; [by intros [= <-]|].
    destruct (or_else_cases ofCurrent (or_else ofPending None))
      as [(s & _ & Hs & ->)|[_ ->]]; [by intros [= <-]|].
    destruct (or_else_cases ofPending None) as [(s & _ & Hs & ->)|[_ ->]];
      [by intros [= <-]|done].
  - intros k Hk Ht. by apply or_else_Some_truthy.
  - split.
    + intros Hnone.
      destruct (or_else_cases server (or_else ofCurrent (or_else ofPending None)))
        as [(s & _ & _ & H)|[Hs H]]; [congruence|]. rewrite H in Hnone.
      destruct (or_else_cases ofCurrent (or_else ofPending None))
        as [(s & _ & _ & H')|[Hc H']]; [congruence|]. rewrite H' in Hnone.
      destruct (or_else_cases ofPending None) as [(s & _ & _ & H'')|[Hp _]];
        [congruence|].
      split; [done|]. subst ofCurrent ofPending. split.
      * intros c Hcur. apply Hc. by rewrite Hcur.
      * intros p Hpen. apply Hp. by rewrite Hpen.
    + intros (Hs & Hc & Hp).
      rewrite (or_else_falsy server) by done.
      rewrite (or_else_falsy ofCurrent).
      * rewrite (or_else_falsy ofPending); [done|]. subst ofPending.
        intros s. destruct (pending state) as [p|]; [|done]. intros [= <-]. by apply Hp.
      * subst ofCurrent.
        intros s. destruct (current state) as [c|]; [|done]. intros [= <-]. by apply Hc.
  - intros effects input outcome w k Hfresh Hk Ht.
    rewrite dispatch_reduced, reducer_settle_success by done.
    cbn [fst snd cookie current pending]. rewrite Hk, Ht.
    split; [|apply lookup_insert_eq].
    apply or_else_Some_truthy; [done|]. unfold settled_outcome. simpl. done.
Qed.

Lemma flagBag_visitorKey_witness :
  let r := dispatch (Scenario.awaitingB, [fetch Scenario.inputB])
             (settle_success Scenario.inputB
                (Scenario.outcome_of ∅ (Some "v2"%string))) Scenario.world0 in
  bag_visitorKey (flagBag r.1.1.1 ∅) = Some "v2"%string ∧
  cookie r.2 !! visitorKeyCookie = Some "v2"%string.
Proof.
  apply (flagBag_visitorKey Scenario.awaitingB ∅).
  - vm_compute. reflexivity.
  - reflexivity.
  - reflexivity.
Defined.

(** ** A change of user or traits *)

(** X19: a change of the user or of the traits makes the hook evaluate again.
    When the latest input, the pending one or else the current one, was built
    for another user or other traits than the options now hold, a ready hook
    dispatches evaluate for the input with the new user and traits, whatever
    the visitor key is. *)
Theorem mountEffect_evaluates_on_changed_options (config : Config)
    (options : UseFlagsOptions) (g : string) (state : State) (w : World) :
  let changed (input : Input) :=
    user (requestBody input) ≠ options_user options ∨
    traits (requestBody input) ≠ options_traits options in
  (∀ p, pending state = Some p → changed (pending_input p)) →
  (pending state = None → ∀ c, current state = Some c → changed (current_input c)) →
  isReady (options_ready options) = true →
  ∃ input,
    (mountEffect config options g state w).1 = [evaluate input] ∧
    user (requestBody input) = options_user options ∧
    traits (requestBody input) = options_traits options.
Proof.
  intros changed Hp Hc Hready.
  exists (currentInput config options g state w). split; [|done].
  unfold mountEffect. cbn [fst]. rewrite Hready.
  assert (isEmergingInput (currentInput config options g state w) state = true) as ->;
    [|done].
  assert (∀ input, changed input →
            deepEqual (Some input) (Some (currentInput config options g state w)) = false)
    as Hdiffers.
  { intros input Hchanged. apply deepEqual_false. intros [= ->].
    destruct Hchanged as [H|H]; by apply H. }
  destruct (pending state) as [p|] eqn:Hpending.
  - erewrite isEmergingInput_pending by done. rewrite Hdiffers; [done|]. by apply Hp.
  - destruct (current state) as [c|] eqn:Hcurrent.
    + erewrite isEmergingInput_current by done. rewrite Hdiffers; [done|]. by apply Hc.
    + unfold isEmergingInput. by rewrite Hpending, Hcurrent.
Qed.

Lemma mountEffect_evaluates_on_changed_options_witness :
  ∃ input,
    (mountEffect Scenario.config (Scenario.options_of None) "generated"
       Scenario.awaitingB Scenario.world0).1 = [evaluate input] ∧
    user (requestBody input) = options_user (Scenario.options_of None) ∧
    traits (requestBody input) = options_traits (Scenario.options_of None).
Proof.
  apply (mountEffect_evaluates_on_changed_options Scenario.config
           (Scenario.options_of None) "generated" Scenario.awaitingB Scenario.world0).
  - intros p [= <-]. right. discriminate.
  - discriminate.
  - reflexivity.
Defined.
